(** * trace: a shallow embedding of the dispatcher [T] and of [Callers]

    The Go package [trace] sends prioritised, path-labelled messages to
    the registered listeners ([T], file trace.go) and lets a listener ask
    for the call stack of the code which emitted the message ([Callers]).

    Go strings are byte sequences; they are modelled by [string], whose
    characters are the 256 values of [ascii].  [len] is [String.length]
    and [s[i]] is [String.get], which has no value out of range, where Go
    panics.  [Priority] is an [int32], modelled by a [Z] of that range. *)

From Stdlib Require Import ZArith List String Ascii Bool Lia DecimalString Sorted.
From Equations Require Import Equations.
Import ListNotations.

Local Open Scope string_scope.
Local Open Scope list_scope.

(** ** The parts of Go's [strings] package which the code calls *)

Module strings.

(** [len(s) >= len(prefix) && s[:len(prefix)] == prefix] *)
Definition HasPrefix (s prefix : string) : bool :=
  (String.length prefix <=? String.length s)%nat
  && String.eqb (substring 0 (String.length prefix) s) prefix.

(** [len(s) >= len(suffix) && s[len(s)-len(suffix):] == suffix] *)
Definition HasSuffix (s suffix : string) : bool :=
  (String.length suffix <=? String.length s)%nat
  && String.eqb
       (substring (String.length s - String.length suffix)
                  (String.length suffix) s)
       suffix.

End strings.

(** ** Priorities (trace.go, lines 26-78) *)

(** [type Priority int32] *)
Definition Priority : Type := Z.

Definition MinInt32 : Z := (- 2 ^ 31)%Z.
Definition MaxInt32 : Z := (2 ^ 31 - 1)%Z.

(** The values which a variable of type [Priority] can hold. *)
Definition is_int32 (p : Priority) : Prop := (MinInt32 <= p <= MaxInt32)%Z.

Definition PrioCritical : Priority := 2000%Z.
Definition PrioError : Priority := 1000%Z.
Definition PrioInfo : Priority := 0%Z.
Definition PrioDebug : Priority := (-1000)%Z.
Definition PrioVerbose : Priority := (-2000)%Z.
Definition PrioAll : Priority := MinInt32.

(** ** The environment of the dispatcher

    [T] reads the clock, formats the message with [fmt.Sprintf] and calls
    the listeners.  None of these is code of the package: they are the
    members of a class, and every call of one of them is recorded, in the
    order of the calls, in the history of the run. *)

Class Runtime : Type := {
  Time : Type;                              (* time.Time *)
  zeroTime : Time;                          (* the zero value of time.Time *)
  Arg : Type;                               (* interface{} *)
  Listener : Type;                          (* the registered callbacks *)
  Sprintf : string -> list Arg -> string    (* fmt.Sprintf *)
}.

Inductive Event `{Runtime} : Type :=
| EvNow (t : Time)
| EvSprintf (format : string) (args : list Arg)
| EvListener (l : Listener) (t : Time) (path : string) (prio : Priority)
             (msg : string).

(** The history of a run, oldest event first. *)
Definition History `{Runtime} : Type := list Event.

(** The clock: what [time.Now()] returns after a given history. *)
Class Clock `{Runtime} : Type := clock : History -> Time.

(** An entry of the registry.  [T] reads the fields [path], [prio] and
    [listener] of the values it ranges over. *)
Module Entry.
Record t `{Runtime} : Type := Build {
  path : string;
  prio : Priority;
  listener : Listener
}.
End Entry.

(** Modelled from the spec: the declaration of the package variable
    [listeners] is not in trace.go.  The registry is "an ordered collection
    of Listener Entries, insertion order preserved", the order being that
    of registration: a list, the first registered entry at its head. *)
Definition Registry `{Runtime} : Type := list Entry.t.

(** ** Computations: a history is threaded, and an index out of range
    ends the run in a panic *)

Inductive Outcome `{Runtime} (A : Type) : Type :=
| Returns (a : A) (h : History)
| PanicIndexOutOfRange.

Arguments Returns {_ A} a h.
Arguments PanicIndexOutOfRange {_ A}.

Definition M `{Runtime} (A : Type) : Type := History -> Outcome A.

Definition ret `{Runtime} {A : Type} (a : A) : M A := fun h => Returns a h.

Definition bind `{Runtime} {A B : Type} (m : M A) (k : A -> M B) : M B :=
  fun h =>
    match m h with
    | Returns a h' => k a h'
    | PanicIndexOutOfRange => PanicIndexOutOfRange
    end.

Notation "x <- m ;; k" := (bind m (fun x => k))
  (at level 61, m at next level, right associativity).
Notation "m ;;; k" := (bind m (fun _ => k))
  (at level 61, right associativity).

(** [s[i]] *)
Definition index `{Runtime} (s : string) (i : nat) : M ascii :=
  fun h =>
    match String.get i s with
    | Some c => Returns c h
    | None => PanicIndexOutOfRange
    end.

(** [time.Now()] *)
Definition time_Now `{Clock} : M Time :=
  fun h => Returns (clock h) (h ++ [EvNow (clock h)]).

(** [fmt.Sprintf(format, args...)] *)
Definition fmt_Sprintf `{Runtime} (format : string) (args : list Arg)
  : M string :=
  fun h => Returns (Sprintf format args) (h ++ [EvSprintf format args]).

(** [c.listener(t, path, prio, msg)].  What a listener does is code outside
    the package: the call is recorded with its arguments, and returns. *)
Definition call_listener `{Runtime} (l : Listener) (t : Time) (path : string)
    (prio : Priority) (msg : string) : M unit :=
  fun h => Returns tt (h ++ [EvListener l t path prio msg]).

(** ** The dispatcher [T] (trace.go, lines 99-124) *)

(** Line 113, the condition of the [if] with its short statement:
    [l := len(c.path); l > 0 && len(path) > l && path[l] != '/'].
    [&&] evaluates its right operand only when the left one is true. *)
Definition not_at_boundary `{Runtime} (path cpath : string) : M bool :=
  let l := String.length cpath in
  if (0 <? l)%nat then
    if (l <? String.length path)%nat then
      b <- index path l ;;
      ret (negb (Ascii.eqb b "/"%char))
    else ret false
  else ret false.

(** Lines 111-123, the [range] loop over the entries which are left, with
    the local variables [first], [t] and [msg] of the function. *)
Fixpoint T_range `{Clock} (cs : Registry) (path : string) (prio : Priority)
    (format : string) (args : list Arg)
    (first : bool) (t : Time) (msg : string) {struct cs} : M unit :=
  match cs with
  | [] => ret tt
  | c :: cs' =>
      if (prio >=? Entry.prio c)%Z && strings.HasPrefix path (Entry.path c)
      then
        skip <- not_at_boundary path (Entry.path c) ;;
        if skip then
          (* continue *)
          T_range cs' path prio format args first t msg
        else
          st <- (if first then
                   t' <- time_Now ;;
                   msg' <- fmt_Sprintf format args ;;
                   ret (false, t', msg')
                 else ret (first, t, msg)) ;;
          let '(first', t', msg') := st in
          call_listener (Entry.listener c) t' path prio msg' ;;;
          T_range cs' path prio format args first' t' msg'
      else
        T_range cs' path prio format args first t msg
  end.

(** [T].  The read lock which the function holds from its first line to
    its return keeps the registry fixed during the call: the registry is
    an argument. *)
Definition T `{Clock} (listeners : Registry) (path : string)
    (prio : Priority) (format : string) (args : list Arg) : M unit :=
  if (List.length listeners =? 0)%nat then ret tt
  else T_range listeners path prio format args true zeroTime "".

(** ** The stack capturer [Callers] *)

(** What [runtime.Caller] reports of a frame. *)
Record Frame : Type := {
  pc : Z;
  file : string;
  line : Z
}.

(** The stack of the running goroutine, innermost frame first: frame 0 is
    the function which calls [runtime.Caller], that is [Callers] itself. *)
Definition Stack : Type := list Frame.

(** [runtime.Caller(skip)]; [None] stands for [ok == false]. *)
Definition runtime_Caller (stack : Stack) (skip : nat) : option Frame :=
  nth_error stack skip.

(** [fmt.Sprintf("%s:%d", file, line)] *)
Definition Sprintf_file_line (file : string) (line : Z) : string :=
  file ++ ":" ++ NilEmpty.string_of_int (Z.to_int line).

Definition trace_go : string := "github.com/seehuhn/trace/trace.go".
Definition proc_c : string := "src/pkg/runtime/proc.c".

Definition inspect {A : Type} (a : A) : {b : A | a = b} := exist _ a eq_refl.

(** The loop [for i := 2; ; i++] from the value [i] of its counter on.  It
    has no condition: it ends at a [break], and it reaches one because
    [runtime.Caller(i)] fails as soon as [i] is the depth of the stack. *)
Equations? Callers_loop (stack : Stack) (i : nat) (callToTSeen : bool)
    (res : list string) : list string by wf (List.length stack - i) lt :=
  Callers_loop stack i callToTSeen res with inspect (runtime_Caller stack i) := {
    | exist _ None _ => res
    | exist _ (Some f) _ with negb callToTSeen := {
        | true with strings.HasSuffix (file f) trace_go := {
            | true => Callers_loop stack (S i) true res
            | false => Callers_loop stack (S i) callToTSeen res }
        | false with strings.HasSuffix (file f) proc_c := {
            | true => res
            | false =>
                Callers_loop stack (S i) callToTSeen
                  (res ++ [Sprintf_file_line (file f) (line f)]) } } }.
Proof.
  all: assert (i < List.length stack)
         by (apply nth_error_Some; unfold runtime_Caller in *; congruence);
       lia.
Qed.

Definition Callers (stack : Stack) : list string :=
  Callers_loop stack 2 false [].

(** ** Reading a history *)

(** The listeners which were called, in the order of the calls. *)
Fixpoint listener_calls `{Runtime} (h : History) : list Listener :=
  match h with
  | [] => []
  | EvListener l _ _ _ _ :: h' => l :: listener_calls h'
  | _ :: h' => listener_calls h'
  end.

(** How many times the message template was formatted. *)
Fixpoint formattings `{Runtime} (h : History) : nat :=
  match h with
  | [] => 0
  | EvSprintf _ _ :: h' => S (formattings h')
  | _ :: h' => formattings h'
  end.

(** ** The filters *)

(** Both tests of lines 112-113 on one entry: the condition of the outer
    [if] holds and the [continue] is not taken.  Outside the range of the
    string the inner condition is not evaluated, by the guard
    [len(path) > l]; [passes] reads [false] for it there. *)
Definition passes `{Runtime} (path : string) (prio : Priority) (c : Entry.t)
  : bool :=
  (prio >=? Entry.prio c)%Z
  && strings.HasPrefix path (Entry.path c)
  && negb ((0 <? String.length (Entry.path c))%nat
           && (String.length (Entry.path c) <? String.length path)%nat
           && match String.get (String.length (Entry.path c)) path with
              | Some b => negb (Ascii.eqb b "/"%char)
              | None => false
              end).

(** The filter in the words of the specification:
    [priority >= entry.minPriority] and ([path == entry.subscribedPath] or
    [path] starts with [entry.subscribedPath + "/"]). *)
Definition stated_filter `{Runtime} (path : string) (prio : Priority)
    (c : Entry.t) : bool :=
  (prio >=? Entry.prio c)%Z
  && (String.eqb path (Entry.path c)
      || strings.HasPrefix path (Entry.path c ++ "/")).

(** The same, with the entries of empty subscribed path accepted for every
    emitted path. *)
Definition path_filter (path subscribed : string) : bool :=
  String.eqb subscribed ""
  || String.eqb path subscribed
  || strings.HasPrefix path (subscribed ++ "/").

Definition subscription_filter `{Runtime} (path : string) (prio : Priority)
    (c : Entry.t) : bool :=
  (prio >=? Entry.prio c)%Z && path_filter path (Entry.path c).

(** The entry is subscribed to the path [p]. *)
Definition subscribed_to `{Runtime} (p : string) (c : Entry.t) : bool :=
  String.eqb (Entry.path c) p.

(** The events which one emission adds to the history [h]: nothing when no
    entry is selected; else one reading of the clock, one formatting, and
    one call per selected entry, all with that time and that message. *)
Definition deliveries `{Runtime} (sel : list Entry.t) (t : Time)
    (path : string) (prio : Priority) (msg : string) : History :=
  map (fun c => EvListener (Entry.listener c) t path prio msg) sel.

Definition emission `{Clock} (h : History) (sel : list Entry.t)
    (path : string) (prio : Priority) (format : string) (args : list Arg)
  : History :=
  match sel with
  | [] => []
  | _ :: _ =>
      EvNow (clock h) :: EvSprintf format args
        :: deliveries sel (clock h) path prio (Sprintf format args)
  end.

(** ** Reading a stack *)

Definition is_entry_point (f : Frame) : bool :=
  strings.HasSuffix (file f) trace_go.

Definition is_startup (f : Frame) : bool :=
  strings.HasSuffix (file f) proc_c.

Definition location (f : Frame) : string :=
  Sprintf_file_line (file f) (line f).

(** The frames which [Callers] walks: those from [runtime.Caller(2)] on. *)
Definition walked (stack : Stack) : list Frame := skipn 2 stack.

(** The locations of the frames up to, and without, the first frame of the
    runtime's startup code. *)
Fixpoint until_startup (fs : list Frame) : list string :=
  match fs with
  | [] => []
  | f :: fs' => if is_startup f then [] else location f :: until_startup fs'
  end.

(** The walk as the specification describes it: the frames are discarded
    up to the first frame of the entry point, and the locations of those
    after it are collected up to the startup code. *)
Fixpoint after_entry_point (fs : list Frame) : list string :=
  match fs with
  | [] => []
  | f :: fs' =>
      if is_entry_point f then until_startup fs' else after_entry_point fs'
  end.

(** ** A small environment to run the definitions in *)

Definition demo : Runtime := {|
  Time := nat;
  zeroTime := 0;
  Arg := string;
  Listener := string;
  Sprintf := fun format args => String.concat " " (format :: args)
|}.

Definition demo_clock : @Clock demo := fun h => S (List.length h).

Definition demo_entry (path : string) (prio : Priority) (l : string)
  : @Entry.t demo :=
  @Entry.Build demo path prio l.

Definition frame (file : string) (line : Z) : Frame :=
  {| pc := 0; file := file; line := line |}.

(** The registry of the example: listener A on "net" from Info on, then
    listener B on "net/http" from Debug on. *)
Definition net_registry `{Runtime} (A B : Listener) : Registry :=
  [Entry.Build _ "net" PrioInfo A; Entry.Build _ "net/http" PrioDebug B].

(** A registry with a subscription to the empty path. *)
Definition demo_registry : @Registry demo :=
  [demo_entry "net" PrioInfo "A"; demo_entry "" PrioError "all"].

(** The stack of a listener which calls [Callers], when [T] was called by
    [main.main]. *)
Definition listener_stack : Stack :=
  [frame "/go/src/github.com/seehuhn/trace/callers.go" 20;
   frame "/home/user/app/main.go" 12;
   frame "/go/src/github.com/seehuhn/trace/trace.go" 121;
   frame "/home/user/app/main.go" 30;
   frame "/usr/local/go/src/pkg/runtime/proc.c" 182;
   frame "/usr/local/go/src/pkg/runtime/proc.c" 1223].

(** The same when [T] is itself the function of a [go] statement: its
    caller is the frame of the runtime which starts and ends goroutines. *)
Definition goroutine_stack : Stack :=
  [frame "/go/src/github.com/seehuhn/trace/callers.go" 20;
   frame "/home/user/app/main.go" 12;
   frame "/go/src/github.com/seehuhn/trace/trace.go" 121;
   frame "/usr/local/go/src/pkg/runtime/proc.c" 1223].

(** The stack of a call of [Callers] from [main.main]. *)
Definition main_stack : Stack :=
  [frame "/go/src/github.com/seehuhn/trace/callers.go" 20;
   frame "/home/user/app/main.go" 12;
   frame "/usr/local/go/src/pkg/runtime/proc.c" 182;
   frame "/usr/local/go/src/pkg/runtime/proc.c" 1223].

(** * Properties *)

(** ** Strings *)

Section StringFacts.

Lemma get_in_range (s : string) (n : nat) :
  n < String.length s -> exists b, String.get n s = Some b.
Proof.
  revert n; induction s as [|a s IH]; simpl; intros n Hn; [lia|].
  destruct n as [|n]; [eauto|]. apply IH; lia.
Qed.

(** Go's [HasPrefix] is the prefix test of the library. *)
Lemma HasPrefix_prefix (s p : string) :
  strings.HasPrefix s p = String.prefix p s.
Proof.
  unfold strings.HasPrefix.
  revert s; induction p as [|a p IH]; intros s.
  - simpl. destruct s; reflexivity.
  - destruct s as [|b s]; [reflexivity|].
    simpl String.length. simpl substring. simpl prefix.
    rewrite <- IH.
    change (S (String.length p) <=? S (String.length s))%nat
      with (String.length p <=? String.length s)%nat.
    simpl String.eqb.
    destruct (Ascii.eqb_spec a b) as [->|Hne].
    + rewrite Ascii.eqb_refl.
      destruct (ascii_dec b b); [reflexivity|congruence].
    + destruct (ascii_dec a b); [congruence|].
      rewrite (proj2 (Ascii.eqb_neq b a)) by congruence.
      apply andb_false_r.
Qed.

(** A prefix [p] of [path] which ends [path] or is followed by a slash:
    [path] is [p], or [p ++ "/"] is a prefix of [path]. *)
Lemma prefix_boundary (p path : string) :
  String.prefix p path
  && negb ((String.length p <? String.length path)%nat
           && match String.get (String.length p) path with
              | Some b => negb (Ascii.eqb b "/"%char)
              | None => false
              end)
  = String.eqb path p || String.prefix (p ++ "/") path.
Proof.
  revert path; induction p as [|a p IH]; intros path.
  - destruct path as [|b path]; [reflexivity|].
    cbn [prefix String.append String.get String.length String.eqb andb orb].
    destruct (ascii_dec "/"%char b) as [<-|Hne].
    + rewrite Ascii.eqb_refl. destruct path; reflexivity.
    + rewrite (proj2 (Ascii.eqb_neq b "/"%char)) by congruence.
      reflexivity.
  - destruct path as [|b path]; [reflexivity|].
    simpl String.length. simpl String.get. simpl prefix. simpl String.eqb.
    change (S (String.length p) <? S (String.length path))%nat
      with (String.length p <? String.length path)%nat.
    destruct (ascii_dec a b) as [->|Hne].
    + rewrite Ascii.eqb_refl. apply IH.
    + rewrite (proj2 (Ascii.eqb_neq b a)) by congruence. reflexivity.
Qed.

(** The two tests of the code on the paths are the path filter. *)
Lemma path_tests (path subscribed : string) :
  strings.HasPrefix path subscribed
  && negb ((0 <? String.length subscribed)%nat
           && (String.length subscribed <? String.length path)%nat
           && match String.get (String.length subscribed) path with
              | Some b => negb (Ascii.eqb b "/"%char)
              | None => false
              end)
  = path_filter path subscribed.
Proof.
  unfold path_filter. rewrite !HasPrefix_prefix.
  destruct subscribed as [|a p].
  - simpl. destruct path; reflexivity.
  - change (0 <? String.length (String a p))%nat with true.
    rewrite andb_true_l.
    change (String.eqb (String a p) "") with false.
    rewrite orb_false_l. apply prefix_boundary.
Qed.

End StringFacts.

(** ** More on paths *)

Section PathFacts.

Lemma prefix_split (p s : string) :
  String.prefix p s = true -> exists r : string, s = (p ++ r)%string.
Proof.
  revert s; induction p as [|a p IH]; intros s Hp.
  - exists s. reflexivity.
  - destruct s as [|b s]; [discriminate|].
    simpl in Hp. destruct (ascii_dec a b) as [->|]; [|discriminate].
    destruct (IH s Hp) as [r ->]. exists r. reflexivity.
Qed.

Lemma prefix_append (p a b : string) :
  String.prefix (p ++ a)%string (p ++ b)%string = String.prefix a b.
Proof.
  induction p as [|c p IH]; [reflexivity|].
  simpl. destruct (ascii_dec c c); [exact IH|congruence].
Qed.

Lemma prefix_empty (s : string) : String.prefix "" s = true.
Proof. destruct s; reflexivity. Qed.

Lemma prefix_cons (a b : ascii) (p s : string) :
  String.prefix (String a p) (String b s)
  = if ascii_dec a b then String.prefix p s else false.
Proof. reflexivity. Qed.

Lemma append_assoc (a b c : string) :
  ((a ++ b) ++ c = a ++ (b ++ c))%string.
Proof. induction a as [|x a IH]; simpl; [reflexivity|]. rewrite IH. reflexivity. Qed.

Lemma append_empty_r (a : string) : (a ++ "")%string = a.
Proof. induction a as [|x a IH]; simpl; [reflexivity|]. rewrite IH. reflexivity. Qed.

Lemma append_nonempty_neq (p : string) (ch : ascii) (rest : string) :
  String.eqb (p ++ String ch rest)%string p = false.
Proof.
  apply String.eqb_neq. intros Heq.
  apply (f_equal String.length) in Heq. revert Heq.
  induction p as [|x p IH]; simpl; intros Heq; [discriminate|].
  apply IH. congruence.
Qed.

(** A sub-path of a subscribed path passes the path filter. *)
Lemma path_filter_subpath (p rest : string) :
  path_filter (p ++ "/" ++ rest)%string p = true.
Proof.
  unfold path_filter. rewrite HasPrefix_prefix.
  rewrite <- (append_empty_r (p ++ "/")%string) at 1.
  rewrite append_assoc at 1.
  
  rewrite !prefix_append. simpl.
  rewrite prefix_empty. apply orb_true_r.
Qed.

(** A path which goes on after the subscribed path with another character
    than the slash does not pass it. *)
Lemma path_filter_no_boundary (p : string) (ch : ascii) (rest : string) :
  p <> "" -> ch <> "/"%char ->
  path_filter (p ++ String ch rest)%string p = false.
Proof.
  intros Hp Hch. unfold path_filter.
  rewrite (proj2 (String.eqb_neq p "") Hp), append_nonempty_neq.
  rewrite HasPrefix_prefix, prefix_append.
  cbn [String.append]. rewrite prefix_cons.
  destruct (ascii_dec "/"%char ch); [congruence|reflexivity].
Qed.

(** The filter of a subscribed path lets pass what the filter of a path
    under it lets pass. *)
Lemma path_filter_trans (path p2 p1 : string) :
  path_filter path p2 = true -> path_filter p2 p1 = true ->
  path_filter path p1 = true.
Proof.
  unfold path_filter. rewrite !HasPrefix_prefix.
  destruct (String.eqb_spec p1 "") as [->|Hp1]; [reflexivity|].
  rewrite !orb_false_l. intros H2 H1.
  destruct (String.eqb_spec p2 "") as [->|Hp2].
  - destruct (String.eqb_spec "" p1) as [<-|]; [congruence|].
    destruct p1; discriminate.
  - rewrite orb_false_l in H2.
    destruct (String.eqb_spec path p2) as [->|Hne]; [exact H1|].
    rewrite orb_false_l in H2. apply prefix_split in H2. destruct H2 as [r ->].
    destruct (String.eqb_spec p2 p1) as [->|Hne21].
    + rewrite append_assoc, prefix_append. simpl. rewrite prefix_empty.
      apply orb_true_r.
    + rewrite orb_false_l in H1. apply prefix_split in H1.
      destruct H1 as [r1 ->].
      rewrite !append_assoc, prefix_append. simpl. rewrite prefix_empty.
      apply orb_true_r.
Qed.

(** Of the empty path. *)
Lemma path_filter_empty_path (p : string) :
  path_filter "" p = String.eqb p "".
Proof.
  unfold path_filter. rewrite HasPrefix_prefix, (String.eqb_sym "" p).
  destruct p; reflexivity.
Qed.

Lemma path_filter_shorter (path p : string) :
  String.length path < String.length p -> path_filter path p = false.
Proof.
  intros Hlt. rewrite <- path_tests. unfold strings.HasPrefix.
  rewrite (proj2 (Nat.leb_gt _ _) Hlt). reflexivity.
Qed.

End PathFacts.

(** ** The dispatcher *)

Section Dispatch.

Context `{Clock}.

Lemma passes_subscription_filter (path : string) (prio : Priority)
    (c : Entry.t) :
  passes path prio c = subscription_filter path prio c.
Proof.
  unfold passes, subscription_filter.
  rewrite <- andb_assoc, path_tests. reflexivity.
Qed.

(** The test of line 113 returns, with the history as it was. *)
Lemma not_at_boundary_returns (path cpath : string) (h : History) :
  not_at_boundary path cpath h
  = Returns ((0 <? String.length cpath)%nat
             && (String.length cpath <? String.length path)%nat
             && match String.get (String.length cpath) path with
                | Some b => negb (Ascii.eqb b "/"%char)
                | None => false
                end) h.
Proof.
  unfold not_at_boundary.
  destruct (0 <? String.length cpath)%nat; [|reflexivity].
  destruct (String.length cpath <? String.length path)%nat eqn:Hlt;
    [|reflexivity].
  apply Nat.ltb_lt, get_in_range in Hlt. destruct Hlt as [b Hb].
  unfold bind, index, ret. rewrite Hb. reflexivity.
Qed.

(** What the loop adds to the history, from any state of its variables. *)
Lemma T_range_runs (cs : Registry) (path : string) (prio : Priority)
    (format : string) (args : list Arg) (first : bool) (t : Time)
    (msg : string) (h : History) :
  T_range cs path prio format args first t msg h
  = Returns tt
      (h ++ if first
            then emission h (filter (passes path prio) cs)
                   path prio format args
            else deliveries (filter (passes path prio) cs)
                   t path prio msg).
Proof.
  revert first t msg h.
  induction cs as [|c cs IH]; intros first t msg h.
  - simpl. unfold ret. destruct first; simpl; rewrite app_nil_r; reflexivity.
  - cbn [T_range filter].
    pose proof (@eq_refl bool (passes path prio c)) as Hp.
    unfold passes at 2 in Hp.
    destruct ((prio >=? Entry.prio c)%Z
              && strings.HasPrefix path (Entry.path c)) eqn:Hif.
    + unfold bind at 1. rewrite not_at_boundary_returns.
      rewrite andb_true_l in Hp. rewrite Hp.
      match goal with
      | |- context [negb ?b] => destruct b
      end; cbn [negb].
      * apply IH.
      * destruct first.
        -- unfold bind, time_Now, fmt_Sprintf, call_listener, ret.
           rewrite IH. cbn [emission deliveries map].
           rewrite <- !app_assoc. reflexivity.
        -- unfold bind, call_listener, ret.
           rewrite IH. cbn [deliveries map].
           rewrite <- !app_assoc. reflexivity.
    + rewrite andb_false_l in Hp. rewrite Hp. apply IH.
Qed.

(** One emission: the history grows by the events of [emission], for the
    entries which pass both tests, in the order of the registry. *)
Lemma T_runs (listeners : Registry) (path : string) (prio : Priority)
    (format : string) (args : list Arg) (h : History) :
  T listeners path prio format args h
  = Returns tt
      (h ++ emission h (filter (passes path prio) listeners)
              path prio format args).
Proof.
  unfold T. destruct listeners as [|c cs].
  - simpl. unfold ret. rewrite app_nil_r. reflexivity.
  - cbn [List.length Nat.eqb]. apply T_range_runs.
Qed.

Lemma listener_calls_deliveries (sel : list Entry.t) (t : Time)
    (path : string) (prio : Priority) (msg : string) :
  listener_calls (deliveries sel t path prio msg) = map Entry.listener sel.
Proof.
  induction sel as [|c sel IH]; simpl; [reflexivity|].
  f_equal. exact IH.
Qed.

Lemma listener_calls_emission (h : History) (sel : list Entry.t)
    (path : string) (prio : Priority) (format : string)
    (args : list Arg) :
  listener_calls (emission h sel path prio format args)
  = map Entry.listener sel.
Proof.
  destruct sel as [|c sel]; [reflexivity|].
  unfold emission. cbn [listener_calls].
  apply listener_calls_deliveries.
Qed.

Lemma formattings_deliveries (sel : list Entry.t) (t : Time)
    (path : string) (prio : Priority) (msg : string) :
  formattings (deliveries sel t path prio msg) = 0.
Proof.
  induction sel as [|c sel IH]; simpl; [reflexivity|exact IH].
Qed.

Lemma formattings_emission (h : History) (sel : list Entry.t)
    (path : string) (prio : Priority) (format : string)
    (args : list Arg) :
  formattings (emission h sel path prio format args)
  = match sel with [] => 0 | _ :: _ => 1 end.
Proof.
  destruct sel as [|c sel]; [reflexivity|].
  unfold emission. cbn [formattings].
  rewrite formattings_deliveries. reflexivity.
Qed.

End Dispatch.

(** ** The stack capturer *)

Section Capture.

Lemma skipn_exhausted (stack : Stack) (i : nat) :
  runtime_Caller stack i = None -> skipn i stack = [].
Proof.
  unfold runtime_Caller. intros Hnone.
  apply skipn_all2, nth_error_None, Hnone.
Qed.

Lemma skipn_frame (stack : Stack) (i : nat) (f : Frame) :
  runtime_Caller stack i = Some f -> skipn i stack = f :: skipn (S i) stack.
Proof.
  unfold runtime_Caller. revert i.
  induction stack as [|g stack IH]; intros [|i] Hsome;
    simpl in *; try discriminate.
  - congruence.
  - apply IH, Hsome.
Qed.

(** The loop from counter [i] on is the walk over the frames from the
    ith on. *)
Lemma Callers_loop_walk (stack : Stack) (i : nat) (callToTSeen : bool)
    (res : list string) :
  Callers_loop stack i callToTSeen res
  = res ++ if callToTSeen then until_startup (skipn i stack)
           else after_entry_point (skipn i stack).
Proof.
  funelim (Callers_loop stack i callToTSeen res).
  all: try match goal with
           | Hc : runtime_Caller _ _ = Some _ |- _ =>
               rewrite (skipn_frame _ _ _ Hc)
           | Hc : runtime_Caller _ _ = None |- _ =>
               rewrite (skipn_exhausted _ _ Hc)
           end.
  - destruct callToTSeen; simpl; rewrite app_nil_r; reflexivity.
  - destruct callToTSeen; [discriminate|].
    cbn [after_entry_point]. unfold is_entry_point.
    match goal with Hs : strings.HasSuffix _ trace_go = _ |- _ =>
      rewrite Hs end.
    assumption.
  - destruct callToTSeen; [discriminate|].
    cbn [after_entry_point]. unfold is_entry_point.
    match goal with Hs : strings.HasSuffix _ trace_go = _ |- _ =>
      rewrite Hs end.
    assumption.
  - destruct callToTSeen; [|discriminate].
    cbn [until_startup]. unfold is_startup.
    match goal with Hs : strings.HasSuffix _ proc_c = _ |- _ =>
      rewrite Hs end.
    rewrite app_nil_r. reflexivity.
  - destruct callToTSeen; [|discriminate].
    cbn [until_startup]. unfold is_startup.
    match goal with Hs : strings.HasSuffix _ proc_c = _ |- _ =>
      rewrite Hs end.
    match goal with IH : Callers_loop _ _ _ _ = _ ++ _ |- _ =>
      rewrite IH end.
    rewrite <- app_assoc. reflexivity.
Qed.

Lemma Callers_walk (stack : Stack) :
  Callers stack = after_entry_point (walked stack).
Proof. unfold Callers. rewrite Callers_loop_walk. reflexivity. Qed.

Lemma after_entry_point_found (pre : list Frame) (t : Frame)
    (post : list Frame) :
  Forall (fun f => is_entry_point f = false) pre ->
  is_entry_point t = true ->
  after_entry_point (pre ++ t :: post) = until_startup post.
Proof.
  intros Hpre Ht. induction Hpre as [|f pre Hf _ IH]; simpl.
  - rewrite Ht. reflexivity.
  - rewrite Hf. exact IH.
Qed.

Lemma after_entry_point_absent (fs : list Frame) :
  Forall (fun f => is_entry_point f = false) fs ->
  after_entry_point fs = [].
Proof.
  intros Hfs. induction Hfs as [|f fs Hf _ IH]; simpl; [reflexivity|].
  rewrite Hf. exact IH.
Qed.

End Capture.

(** ** Positions in the registry *)

Section Positions.

Context {A : Type}.

Lemma StronglySorted_shift (idxs : list nat) :
  StronglySorted lt idxs ->
  Forall (fun i => 0 < i) (map S idxs) /\ StronglySorted lt (map S idxs).
Proof.
  induction 1 as [|i idxs Hs [IHpos IHs] Hlt]; simpl.
  - split; constructor.
  - split; constructor; try assumption; try lia.
    apply Forall_map. eapply Forall_impl; [|exact Hlt].
    simpl. intros; lia.
Qed.

(** The elements which a filter keeps are those which stand in the list
    at the positions where the filter holds, taken in increasing order. *)
Lemma filter_positions (f : A -> bool) (l : list A) :
  exists idxs : list nat,
    StronglySorted lt idxs
    /\ (forall i : nat,
          In i idxs <-> exists a : A, nth_error l i = Some a /\ f a = true)
    /\ Forall2 (fun i a => nth_error l i = Some a) idxs (filter f l).
Proof.
  induction l as [|a l (idxs & Hs & Hin & Hnth)].
  - exists []. split; [constructor|]. split; [|constructor].
    intros i. split; [contradiction|].
    intros (a & Ha & _). destruct i; discriminate.
  - destruct (StronglySorted_shift idxs Hs) as [Hpos Hs'].
    assert (Hnth' : Forall2 (fun i b => nth_error (a :: l) i = Some b)
                      (map S idxs) (filter f l)).
    { clear -Hnth. induction Hnth; simpl; constructor; assumption. }
    assert (Hin' : forall i : nat,
               In i (map S idxs)
               <-> exists j : nat, i = S j
                     /\ exists b : A, nth_error l j = Some b /\ f b = true).
    { intros i. rewrite in_map_iff. split.
      - intros (j & <- & Hj). exists j. split; [reflexivity|].
        apply Hin, Hj.
      - intros (j & -> & Hj). exists j. split; [reflexivity|].
        apply Hin, Hj. }
    simpl. destruct (f a) eqn:Hfa.
    + exists (0 :: map S idxs). split; [constructor; assumption|].
      split; [|constructor; [reflexivity|exact Hnth']].
      intros [|j]; simpl.
      * split; [|left; reflexivity].
        intros _. exists a. split; [reflexivity|exact Hfa].
      * rewrite Hin'. split.
        -- intros [Hz|(j' & Hj' & Hb)]; [discriminate|].
           injection Hj' as ->. exact Hb.
        -- intros Hb. right. exists j. split; [reflexivity|exact Hb].
    + exists (map S idxs). split; [exact Hs'|]. split; [|exact Hnth'].
      intros [|j]; simpl.
      * rewrite Hin'. split.
        -- intros (j' & Hj' & _). discriminate.
        -- intros (b & Hb & Hfb). congruence.
      * rewrite Hin'. split.
        -- intros (j' & Hj' & Hb). injection Hj' as ->. exact Hb.
        -- intros Hb. exists j. split; [reflexivity|exact Hb].
Qed.

(** Removing elements which a filter refuses does not change what the
    filter keeps. *)
Lemma filter_after_removal (f keep : A -> bool) (l : list A) :
  (forall a : A, keep a = false -> f a = false) ->
  filter f (filter keep l) = filter f l.
Proof.
  intros Hrefused. induction l as [|a l IH]; simpl; [reflexivity|].
  destruct (keep a) eqn:Hkeep; simpl.
  - rewrite IH. reflexivity.
  - rewrite (Hrefused a Hkeep). exact IH.
Qed.

Lemma filter_nil_existsb (f : A -> bool) (l : list A) :
  match filter f l with [] => 0 | _ :: _ => 1 end
  = if existsb f l then 1 else 0.
Proof.
  induction l as [|a l IH]; simpl; [reflexivity|].
  destruct (f a); [reflexivity|exact IH].
Qed.

End Positions.

(** * The claims *)

(** C1, as stated, fails: an entry subscribed to the empty path is called
    for the emitted path "foo", which neither equals the empty path nor
    starts with "/". *)
Lemma stated_filter_misses_empty_subscription :
  @T demo demo_clock [demo_entry "" PrioAll "all"] "foo" PrioInfo "x" [] []
  = Returns tt
      [@EvNow demo 1; @EvSprintf demo "x" [];
       @EvListener demo "all" 1 "foo" PrioInfo "x"]
  /\ filter (@stated_filter demo "foo" PrioInfo) [demo_entry "" PrioAll "all"]
     = [].
Proof. split; reflexivity. Qed.

(** C1, amended: for every registry and every emission, [T] returns and
    has called exactly the entries for which the priority is at least the
    entry's and the subscribed path is empty, or is the emitted path, or
    followed by "/" starts the emitted path; it has called them once each,
    in the order of the registry, and no other entry. *)
Theorem T_invokes_subscribed `{Clock} (listeners : Registry) (path : string)
    (prio : Priority) (format : string) (args : list Arg) (h : History) :
  exists h' : History,
    T listeners path prio format args h = Returns tt (h ++ h')
    /\ listener_calls h'
       = map Entry.listener
           (filter (subscription_filter path prio) listeners).
Proof.
  eexists. split; [apply T_runs|].
  rewrite listener_calls_emission. f_equal.
  apply filter_ext. intros c. apply passes_subscription_filter.
Qed.

(** C2: an emission formats the message at most once, and not at all when
    no entry passes both tests, that is when no listener is called; on the
    empty registry [T] returns with the history as it was. *)
Theorem T_formats_at_most_once `{Clock} (listeners : Registry)
    (path : string) (prio : Priority) (format : string) (args : list Arg)
    (h : History) :
  exists h' : History,
    T listeners path prio format args h = Returns tt (h ++ h')
    /\ formattings h' <= 1
    /\ formattings h' = (if existsb (passes path prio) listeners then 1 else 0)
    /\ formattings h' = match listener_calls h' with [] => 0 | _ :: _ => 1 end
    /\ T [] path prio format args h = Returns tt h.
Proof.
  eexists. split; [apply T_runs|].
  rewrite formattings_emission, listener_calls_emission.
  repeat split.
  - destruct (filter (passes path prio) listeners); lia.
  - apply filter_nil_existsb.
  - destruct (filter (passes path prio) listeners); reflexivity.
Qed.

(** C3: one emission calls the listeners of the matching entries, all of
    them and in the order of their registration: the calls go, one after
    the other, to the entries at the positions of the registry where the
    filter holds, taken in increasing order, whatever the priorities and
    the paths of the entries. *)
Theorem T_calls_in_registration_order `{Clock} (listeners : Registry)
    (path : string) (prio : Priority) (format : string) (args : list Arg)
    (h : History) :
  exists (h' : History) (idxs : list nat),
    T listeners path prio format args h = Returns tt (h ++ h')
    /\ listener_calls h'
       = map Entry.listener
           (filter (subscription_filter path prio) listeners)
    /\ StronglySorted lt idxs
    /\ (forall i : nat,
          In i idxs
          <-> exists c : Entry.t,
                nth_error listeners i = Some c
                /\ subscription_filter path prio c = true)
    /\ Forall2 (fun i l => exists c : Entry.t,
                    nth_error listeners i = Some c
                    /\ Entry.listener c = l)
         idxs (listener_calls h').
Proof.
  destruct (filter_positions (subscription_filter path prio) listeners)
    as (idxs & Hsorted & Hin & Hnth).
  assert (Hsel : filter (passes path prio) listeners
                 = filter (subscription_filter path prio) listeners).
  { apply filter_ext. intros c. apply passes_subscription_filter. }
  eexists. exists idxs. split; [apply T_runs|].
  rewrite listener_calls_emission, Hsel.
  split; [reflexivity|]. split; [exact Hsorted|]. split; [exact Hin|].
  clear -Hnth. induction Hnth as [|i c idxs' sel Hi _ IH]; simpl;
    constructor; [|exact IH].
  exists c. split; [exact Hi|reflexivity].
Qed.

(** The rule of the boundary, for any registry: when the emitted path
    continues a non-empty path [p] with another character than the slash,
    the emission calls the selected entries which are subscribed to other
    paths than [p], and runs as on the registry without the entries
    subscribed to [p]. *)
Lemma boundary_rule `{Clock} (listeners : Registry) (p : string) (ch : ascii)
    (rest : string) (prio : Priority) (format : string) (args : list Arg)
    (h : History) :
  p <> "" -> ch <> "/"%char ->
  exists h' : History,
    T listeners (p ++ String ch rest)%string prio format args h
    = Returns tt (h ++ h')
    /\ listener_calls h'
       = map Entry.listener
           (filter (fun c =>
                      subscription_filter (p ++ String ch rest)%string prio c
                      && negb (subscribed_to p c))
              listeners)
    /\ T (filter (fun c => negb (subscribed_to p c)) listeners)
         (p ++ String ch rest)%string prio format args h
       = Returns tt (h ++ h').
Proof.
  intros Hp Hch.
  assert (Hrefused : forall c : Entry.t,
             negb (subscribed_to p c) = false ->
             passes (p ++ String ch rest)%string prio c = false).
  { intros c Hc. apply negb_false_iff, String.eqb_eq in Hc.
    rewrite passes_subscription_filter. unfold subscription_filter.
    rewrite Hc, (path_filter_no_boundary _ _ _ Hp Hch).
    apply andb_false_r. }
  eexists. split; [apply T_runs|]. split.
  - rewrite listener_calls_emission. f_equal.
    apply filter_ext. intros c.
    destruct (negb (subscribed_to p c)) eqn:Hc.
    + rewrite andb_true_r. apply passes_subscription_filter.
    + rewrite andb_false_r. apply Hrefused, Hc.
  - rewrite T_runs, (filter_after_removal _ _ _ Hrefused). reflexivity.
Qed.

(** C4, as stated, fails for its rule: the empty subscribed path is a
    string prefix of "network", the character which follows it there is
    'n', not a separator, and the entry is called. *)
Lemma empty_prefix_without_separator_called :
  strings.HasPrefix "network" "" = true
  /\ String.get (String.length "") "network" = Some "n"%char
  /\ Ascii.eqb "n" "/" = false
  /\ @T demo demo_clock [demo_entry "" PrioInfo "all"] "network" PrioInfo
        "x" [] []
     = Returns tt
         [@EvNow demo 1; @EvSprintf demo "x" [];
          @EvListener demo "all" 1 "network" PrioInfo "x"].
Proof. repeat split. Qed.

(** C4, amended: in every registry and at every priority, an emission on
    "network" does not call the entries subscribed to "net": it calls the
    selected entries subscribed to other paths, as it does on the registry
    without the entries subscribed to "net".  The same holds of every
    non-empty subscribed path which is a string prefix of the emitted path
    and is followed there by another character than the separator. *)
Theorem network_not_sent_to_net `{Clock} (listeners : Registry)
    (prio : Priority) (format : string) (args : list Arg) (h : History)
    (p : string) (ch : ascii) (rest : string) :
  p <> "" -> ch <> "/"%char ->
  (exists h' : History,
      T listeners "network" prio format args h = Returns tt (h ++ h')
      /\ listener_calls h'
         = map Entry.listener
             (filter (fun c => subscription_filter "network" prio c
                               && negb (subscribed_to "net" c))
                listeners)
      /\ T (filter (fun c => negb (subscribed_to "net" c)) listeners)
           "network" prio format args h
         = Returns tt (h ++ h'))
  /\ (exists h' : History,
        T listeners (p ++ String ch rest)%string prio format args h
        = Returns tt (h ++ h')
        /\ listener_calls h'
           = map Entry.listener
               (filter (fun c =>
                          subscription_filter (p ++ String ch rest)%string
                            prio c
                          && negb (subscribed_to p c))
                  listeners)
        /\ T (filter (fun c => negb (subscribed_to p c)) listeners)
             (p ++ String ch rest)%string prio format args h
           = Returns tt (h ++ h')).
Proof.
  intros Hp Hch. split.
  - apply (boundary_rule listeners "net" "w"%char "ork");
      discriminate.
  - apply boundary_rule; assumption.
Qed.

Lemma network_not_sent_to_net_witness :
  exists h' : @History demo,
    @T demo demo_clock
       [demo_entry "network" PrioAll "N"; demo_entry "net" PrioAll "A";
        demo_entry "" PrioAll "all"]
       "network" PrioInfo "x" [] []
    = Returns tt ([] ++ h')
    /\ listener_calls h' = ["N"; "all"].
Proof.
  destruct (@network_not_sent_to_net demo demo_clock
              [demo_entry "network" PrioAll "N"; demo_entry "net" PrioAll "A";
               demo_entry "" PrioAll "all"]
              PrioInfo "x" [] [] "foo" "b"%char "ar")
    as [(h' & Hruns & Hcalls & _) _].
  - discriminate.
  - discriminate.
  - exists h'. split; [exact Hruns|]. rewrite Hcalls. reflexivity.
Defined.

(** C5: with A on "net" from Info on and then B on "net/http" from Debug
    on, an Info emission on "net/http" calls A and then B, and a Debug
    emission on "net" calls no listener. *)
Theorem net_http_example `{Clock} (A B : Listener) (format : string)
    (args : list Arg) (h : History) :
  T (net_registry A B) "net/http" PrioInfo format args h
  = Returns tt
      (h ++ [EvNow (clock h); EvSprintf format args;
             EvListener A (clock h) "net/http" PrioInfo (Sprintf format args);
             EvListener B (clock h) "net/http" PrioInfo (Sprintf format args)])
  /\ T (net_registry A B) "net" PrioDebug format args h = Returns tt h.
Proof.
  split.
  - rewrite T_runs. reflexivity.
  - rewrite T_runs. simpl. apply f_equal, app_nil_r.
Qed.

(** C6: the five levels are pairwise distinct and
    Critical > Error > Info > Debug > Verbose, Debug being -1000 and Info
    0; All is the least value of an int32, at most every priority. *)
Theorem priority_levels_ordered (p : Priority) :
  is_int32 p ->
  (PrioCritical > PrioError)%Z /\ (PrioError > PrioInfo)%Z
  /\ (PrioInfo > PrioDebug)%Z /\ (PrioDebug > PrioVerbose)%Z
  /\ NoDup [PrioCritical; PrioError; PrioInfo; PrioDebug; PrioVerbose]
  /\ PrioDebug = (-1000)%Z /\ PrioInfo = 0%Z
  /\ PrioAll = (-2147483648)%Z /\ is_int32 PrioAll
  /\ (PrioAll <= p)%Z.
Proof.
  unfold is_int32, PrioAll, MinInt32, MaxInt32, PrioCritical, PrioError,
    PrioInfo, PrioDebug, PrioVerbose.
  intros Hp. repeat split; try lia.
  repeat constructor; simpl; intuition lia.
Qed.

Lemma priority_levels_ordered_witness :
  is_int32 PrioVerbose /\ (PrioAll <= PrioVerbose)%Z.
Proof.
  assert (Hp : is_int32 PrioVerbose)
    by (unfold is_int32, MinInt32, MaxInt32, PrioVerbose; lia).
  split; [exact Hp|].
  apply (priority_levels_ordered PrioVerbose Hp).
Defined.

(** C7, as stated, fails: when [T] is the function of a [go] statement, the
    frame of [T] is among the walked frames, and the frame after it is one
    of the startup code: [Callers] returns the empty sequence. *)
Lemma Callers_empty_within_listener :
  (exists f : Frame,
      In f (walked goroutine_stack) /\ is_entry_point f = true)
  /\ Callers goroutine_stack = [].
Proof.
  split; [|reflexivity].
  exists (frame "/go/src/github.com/seehuhn/trace/trace.go" 121).
  split; [left; reflexivity|reflexivity].
Qed.

(** C7, amended: when the first entry-point frame among the walked frames
    is followed by a frame which is not one of the startup code, [Callers]
    returns a non-empty sequence of "file:line" strings: first the one of
    that frame, the caller of the entry point, then those of the frames
    after it, innermost first, up to the first startup frame or to the end
    of the stack. *)
Theorem Callers_from_listener (stack : Stack) (pre : list Frame)
    (t caller : Frame) (rest : list Frame) :
  walked stack = pre ++ t :: caller :: rest ->
  Forall (fun f => is_entry_point f = false) pre ->
  is_entry_point t = true ->
  is_startup caller = false ->
  Callers stack = location caller :: until_startup rest.
Proof.
  intros Hwalked Hpre Ht Hcaller.
  rewrite Callers_walk, Hwalked, (after_entry_point_found _ _ _ Hpre Ht).
  simpl. rewrite Hcaller. reflexivity.
Qed.

Lemma Callers_from_listener_witness :
  Callers listener_stack = ["/home/user/app/main.go:30"].
Proof.
  apply (Callers_from_listener listener_stack []
           (frame "/go/src/github.com/seehuhn/trace/trace.go" 121)
           (frame "/home/user/app/main.go" 30)
           [frame "/usr/local/go/src/pkg/runtime/proc.c" 182;
            frame "/usr/local/go/src/pkg/runtime/proc.c" 1223]).
  - reflexivity.
  - constructor.
  - reflexivity.
  - reflexivity.
Defined.

(** C8: when no walked frame is one of the entry point, [Callers] returns
    the empty sequence; it has no other outcome than a sequence. *)
Theorem Callers_outside_listener (stack : Stack) :
  Forall (fun f => is_entry_point f = false) (walked stack) ->
  Callers stack = [].
Proof.
  intros Hnone. rewrite Callers_walk. apply after_entry_point_absent, Hnone.
Qed.

Lemma Callers_outside_listener_witness : Callers main_stack = [].
Proof.
  apply (Callers_outside_listener main_stack).
  repeat constructor.
Defined.

(** C9: [T] returns for every registry, path and priority: the character
    [path[l]] is read only where [l] is in the range of [path], so that
    the test of line 113 returns, and so does the emission. *)
Theorem T_never_panics `{Clock} (listeners : Registry) (path : string)
    (prio : Priority) (format : string) (args : list Arg) (h : History) :
  (forall (cpath : string) (h0 : History),
      exists b : bool, not_at_boundary path cpath h0 = Returns b h0)
  /\ exists h' : History,
       T listeners path prio format args h = Returns tt h'.
Proof.
  split.
  - intros cpath h0. eexists. apply not_at_boundary_returns.
  - eexists. apply T_runs.
Qed.

(** C10: an entry subscribed to the empty path is called by every emission
    whose priority is at least the entry's, whatever the emitted path. *)
Theorem empty_subscription_receives_all `{Clock} (listeners : Registry)
    (c : Entry.t) (path : string) (prio : Priority) (format : string)
    (args : list Arg) (h : History) :
  In c listeners ->
  Entry.path c = "" ->
  (prio >= Entry.prio c)%Z ->
  exists h' : History,
    T listeners path prio format args h = Returns tt (h ++ h')
    /\ In (EvListener (Entry.listener c) (clock h) path prio
             (Sprintf format args)) h'.
Proof.
  intros Hin Hpath Hprio.
  eexists. split; [apply T_runs|].
  assert (Hsel : In c (filter (passes path prio) listeners)).
  { apply filter_In. split; [exact Hin|].
    rewrite passes_subscription_filter.
    unfold subscription_filter, path_filter. rewrite Hpath.
    apply andb_true_iff. split; [|reflexivity].
    apply Z.geb_le. lia. }
  destruct (filter (passes path prio) listeners) as [|c0 sel];
    [contradiction|].
  unfold emission. right. right.
  unfold deliveries.
  apply (in_map (fun c1 => EvListener (Entry.listener c1) (clock h) path prio
                             (Sprintf format args))).
  exact Hsel.
Qed.

Lemma empty_subscription_receives_all_witness :
  exists h' : @History demo,
    @T demo demo_clock demo_registry "db/query" PrioCritical "x" [] []
    = Returns tt ([] ++ h')
    /\ In (@EvListener demo "all" 1 "db/query" PrioCritical "x") h'.
Proof.
  apply (@empty_subscription_receives_all demo demo_clock demo_registry
           (demo_entry "" PrioError "all") "db/query" PrioCritical "x" [] []).
  - right. left. reflexivity.
  - reflexivity.
  - unfold PrioCritical, PrioError. simpl. lia.
Defined.

(** * Further properties of the dispatcher and of the stack capturer *)

(** ** Emissions *)

Section Emissions.

Context `{Clock}.

(** An entry of the registry which the filter selects is called, with the
    time, the path, the priority and the message of the emission. *)
Lemma selected_entry_called (listeners : Registry) (c : Entry.t)
    (path : string) (prio : Priority) (format : string) (args : list Arg)
    (h : History) :
  In c listeners ->
  subscription_filter path prio c = true ->
  In (EvListener (Entry.listener c) (clock h) path prio
        (Sprintf format args))
     (emission h (filter (passes path prio) listeners)
        path prio format args).
Proof.
  intros Hin Hsel.
  assert (Hf : In c (filter (passes path prio) listeners)).
  { apply filter_In. split; [exact Hin|].
    rewrite passes_subscription_filter. exact Hsel. }
  destruct (filter (passes path prio) listeners) as [|c0 sel];
    [contradiction|].
  unfold emission. right. right. unfold deliveries.
  apply (in_map (fun c1 => EvListener (Entry.listener c1) (clock h) path
                             prio (Sprintf format args))).
  exact Hf.
Qed.

(** When the filter selects no entry, the emission leaves the history as
    it was. *)
Lemma nothing_selected (listeners : Registry) (path : string)
    (prio : Priority) (format : string) (args : list Arg) (h : History) :
  Forall (fun c => subscription_filter path prio c = false) listeners ->
  T listeners path prio format args h = Returns tt h.
Proof.
  intros Hnone. rewrite T_runs.
  replace (filter (passes path prio) listeners) with (@nil Entry.t).
  - simpl. rewrite app_nil_r. reflexivity.
  - symmetry. induction Hnone as [|c cs Hc _ IH]; [reflexivity|].
    simpl. rewrite passes_subscription_filter, Hc. exact IH.
Qed.

Lemma geb_le_trans (p q r : Z) :
  (p >=? q)%Z = true -> (r <= q)%Z -> (p >=? r)%Z = true.
Proof. rewrite !Z.geb_le. lia. Qed.

Lemma filter_app_calls (l1 l2 : Registry) (path : string)
    (prio : Priority) :
  map Entry.listener (filter (passes path prio) (l1 ++ l2))
  = map Entry.listener (filter (passes path prio) l1)
    ++ map Entry.listener (filter (passes path prio) l2).
Proof. rewrite filter_app, map_app. reflexivity. Qed.

Lemma listener_calls_app (h1 h2 : History) :
  listener_calls (h1 ++ h2) = listener_calls h1 ++ listener_calls h2.
Proof.
  induction h1 as [|e h1 IH]; [reflexivity|].
  destruct e; simpl; rewrite IH; reflexivity.
Qed.

Lemma formattings_app (h1 h2 : History) :
  formattings (h1 ++ h2) = formattings h1 + formattings h2.
Proof.
  induction h1 as [|e h1 IH]; [reflexivity|].
  destruct e; simpl; rewrite IH; reflexivity.
Qed.

End Emissions.

(** X1: the events of one emission carry one time, the reading of the
    clock when the emission began, and one message, the template of the
    emission formatted with its arguments; every call passes the emitted
    path and priority to the listener. *)
Theorem T_calls_share_time_and_message `{Clock} (listeners : Registry)
    (path : string) (prio : Priority) (format : string) (args : list Arg)
    (h : History) :
  exists h' : History,
    T listeners path prio format args h = Returns tt (h ++ h')
    /\ Forall (fun e =>
                 match e with
                 | EvNow t => t = clock h
                 | EvSprintf f a => f = format /\ a = args
                 | EvListener _ t p q m =>
                     t = clock h /\ p = path /\ q = prio
                     /\ m = Sprintf format args
                 end) h'.
Proof.
  eexists. split; [apply T_runs|].
  destruct (filter (passes path prio) listeners) as [|c sel];
    [constructor|].
  unfold emission. constructor; [reflexivity|].
  constructor; [split; reflexivity|].
  unfold deliveries. apply Forall_map, Forall_forall.
  intros c' _. repeat split.
Qed.

(** X2: the clock is read when the first entry passes the tests, not when
    the emission begins: an emission which calls no listener adds nothing
    to the history, and every other one adds one reading of the clock, then
    one formatting, then the calls and nothing else. *)
Theorem T_reads_clock_at_first_match `{Clock} (listeners : Registry)
    (path : string) (prio : Priority) (format : string) (args : list Arg)
    (h : History) :
  exists h' : History,
    T listeners path prio format args h = Returns tt (h ++ h')
    /\ ((existsb (passes path prio) listeners = false /\ h' = [])
        \/ (existsb (passes path prio) listeners = true
            /\ exists calls : History,
                 h' = EvNow (clock h) :: EvSprintf format args :: calls
                 /\ List.length calls = List.length (listener_calls calls)
                 /\ calls <> [])).
Proof.
  eexists. split; [apply T_runs|].
  pose proof (filter_nil_existsb (passes path prio) listeners) as Hex.
  destruct (filter (passes path prio) listeners) as [|c sel].
  - left. split; [|reflexivity].
    destruct (existsb (passes path prio) listeners); [discriminate|].
    reflexivity.
  - right. split.
    + destruct (existsb (passes path prio) listeners); [|discriminate].
      reflexivity.
    + eexists. split; [reflexivity|].
      rewrite listener_calls_deliveries. unfold deliveries.
      rewrite !length_map. split; [reflexivity|discriminate].
Qed.

(** X3: an entry registered with [PrioAll] is called by the emissions of
    every priority on the paths which its subscribed path selects. *)
Theorem PrioAll_subscription_receives_every_priority `{Clock}
    (listeners : Registry) (c : Entry.t) (path : string) (prio : Priority)
    (format : string) (args : list Arg) (h : History) :
  In c listeners ->
  Entry.prio c = PrioAll ->
  is_int32 prio ->
  path_filter path (Entry.path c) = true ->
  exists h' : History,
    T listeners path prio format args h = Returns tt (h ++ h')
    /\ In (EvListener (Entry.listener c) (clock h) path prio
             (Sprintf format args)) h'.
Proof.
  intros Hin Hall [Hmin _] Hpath.
  eexists. split; [apply T_runs|].
  apply selected_entry_called; [exact Hin|].
  unfold subscription_filter. rewrite Hpath, Hall, andb_true_r.
  apply Z.geb_le. exact Hmin.
Qed.

Lemma PrioAll_subscription_receives_every_priority_witness :
  exists h' : @History demo,
    @T demo demo_clock [demo_entry "net" PrioAll "A"] "net/http"
       PrioVerbose "x" [] []
    = Returns tt ([] ++ h')
    /\ In (@EvListener demo "A" 1 "net/http" PrioVerbose "x") h'.
Proof.
  apply (@PrioAll_subscription_receives_every_priority demo demo_clock
           [demo_entry "net" PrioAll "A"] (demo_entry "net" PrioAll "A")
           "net/http" PrioVerbose "x" [] []).
  - left. reflexivity.
  - reflexivity.
  - unfold is_int32, MinInt32, MaxInt32, PrioVerbose. lia.
  - reflexivity.
Defined.

(** X4: raising the priority of an emission loses no listener: every
    listener called at a priority is called at every higher one, on the
    same path and registry. *)
Theorem higher_priority_reaches_more `{Clock} (listeners : Registry)
    (path : string) (prio prio' : Priority) (format : string)
    (args : list Arg) (h : History) :
  (prio <= prio')%Z ->
  exists h1 h2 : History,
    T listeners path prio format args h = Returns tt (h ++ h1)
    /\ T listeners path prio' format args h = Returns tt (h ++ h2)
    /\ incl (listener_calls h1) (listener_calls h2).
Proof.
  intros Hle. eexists. eexists.
  split; [apply T_runs|]. split; [apply T_runs|].
  rewrite !listener_calls_emission. intros l Hl.
  apply in_map_iff in Hl. destruct Hl as (c & Hc & Hin).
  apply filter_In in Hin. destruct Hin as [Hin Hpass].
  apply in_map_iff. exists c. split; [exact Hc|].
  apply filter_In. split; [exact Hin|].
  rewrite passes_subscription_filter in *. unfold subscription_filter in *.
  apply andb_true_iff in Hpass. destruct Hpass as [Hp Hpath].
  rewrite Hpath, andb_true_r. apply Z.geb_le. apply Z.geb_le in Hp. lia.
Qed.

Lemma higher_priority_reaches_more_witness :
  exists h1 h2 : @History demo,
    @T demo demo_clock demo_registry "net" PrioInfo "x" [] []
    = Returns tt ([] ++ h1)
    /\ @T demo demo_clock demo_registry "net" PrioError "x" [] []
       = Returns tt ([] ++ h2)
    /\ incl (listener_calls h1) (listener_calls h2).
Proof.
  apply (@higher_priority_reaches_more demo demo_clock demo_registry "net"
           PrioInfo PrioError "x" [] []).
  unfold PrioInfo, PrioError. lia.
Defined.

(** X5: a subscription to a path, or to a path above it, with a minimum
    priority which is not higher, is called by every emission which the
    subscription to the path selects. *)
Theorem ancestor_subscription_also_called `{Clock} (listeners : Registry)
    (c1 c2 : Entry.t) (path : string) (prio : Priority) (format : string)
    (args : list Arg) (h : History) :
  In c1 listeners ->
  (Entry.prio c1 <= Entry.prio c2)%Z ->
  path_filter (Entry.path c2) (Entry.path c1) = true ->
  subscription_filter path prio c2 = true ->
  exists h' : History,
    T listeners path prio format args h = Returns tt (h ++ h')
    /\ In (EvListener (Entry.listener c1) (clock h) path prio
             (Sprintf format args)) h'.
Proof.
  intros Hin Hprio Habove Hsel.
  eexists. split; [apply T_runs|].
  apply selected_entry_called; [exact Hin|].
  unfold subscription_filter in *.
  apply andb_true_iff in Hsel. destruct Hsel as [Hp Hpath].
  apply andb_true_iff. split.
  - exact (geb_le_trans _ _ _ Hp Hprio).
  - exact (path_filter_trans _ _ _ Hpath Habove).
Qed.

Lemma ancestor_subscription_also_called_witness :
  exists h' : @History demo,
    @T demo demo_clock [demo_entry "net" PrioDebug "A"] "net/http/client"
       PrioInfo "x" [] []
    = Returns tt ([] ++ h')
    /\ In (@EvListener demo "A" 1 "net/http/client" PrioInfo "x") h'.
Proof.
  apply (@ancestor_subscription_also_called demo demo_clock
           [demo_entry "net" PrioDebug "A"] (demo_entry "net" PrioDebug "A")
           (demo_entry "net/http" PrioInfo "B")
           "net/http/client" PrioInfo "x" [] []).
  - left. reflexivity.
  - unfold PrioDebug, PrioInfo. simpl. lia.
  - reflexivity.
  - reflexivity.
Defined.

(** X6: a subscription to a path longer than the emitted path is not
    called: when every subscribed path of the registry is longer, the
    emission leaves the history as it was. *)
Theorem longer_subscriptions_not_called `{Clock} (listeners : Registry)
    (path : string) (prio : Priority) (format : string) (args : list Arg)
    (h : History) :
  Forall (fun c => String.length path < String.length (Entry.path c))
    listeners ->
  T listeners path prio format args h = Returns tt h.
Proof.
  intros Hlong. apply nothing_selected.
  eapply Forall_impl; [|exact Hlong]. simpl. intros c Hc.
  unfold subscription_filter. rewrite (path_filter_shorter _ _ Hc).
  apply andb_false_r.
Qed.

Lemma longer_subscriptions_not_called_witness :
  @T demo demo_clock
     [demo_entry "net/http" PrioAll "B"; demo_entry "network" PrioAll "C"]
     "net" PrioCritical "x" [] []
  = Returns tt [].
Proof.
  apply (@longer_subscriptions_not_called demo demo_clock
           [demo_entry "net/http" PrioAll "B";
            demo_entry "network" PrioAll "C"]
           "net" PrioCritical "x" [] []).
  repeat constructor.
Defined.

(** X7: on a registry which continues another one, an emission calls the
    listeners which it calls on the first part, then those which it calls
    on the added part, and still formats the message at most once. *)
Theorem T_registry_append `{Clock} (l1 l2 : Registry) (path : string)
    (prio : Priority) (format : string) (args : list Arg) (h : History) :
  exists h1 h2 h12 : History,
    T l1 path prio format args h = Returns tt (h ++ h1)
    /\ T l2 path prio format args h = Returns tt (h ++ h2)
    /\ T (l1 ++ l2) path prio format args h = Returns tt (h ++ h12)
    /\ listener_calls h12 = listener_calls h1 ++ listener_calls h2
    /\ formattings h12 <= 1.
Proof.
  eexists. eexists. eexists.
  split; [apply T_runs|]. split; [apply T_runs|]. split; [apply T_runs|].
  rewrite !listener_calls_emission, formattings_emission.
  split; [apply filter_app_calls|].
  destruct (filter (passes path prio) (l1 ++ l2)); lia.
Qed.

(** X8: two emissions in a row on one registry: the second one runs after
    the first has returned, each calls the entries which its own path and
    priority select, and the message is formatted at most twice. *)
Theorem T_twice `{Clock} (listeners : Registry) (path1 path2 : string)
    (prio1 prio2 : Priority) (format1 format2 : string)
    (args1 args2 : list Arg) (h : History) :
  exists h' : History,
    (T listeners path1 prio1 format1 args1 ;;;
     T listeners path2 prio2 format2 args2) h
    = Returns tt (h ++ h')
    /\ listener_calls h'
       = map Entry.listener
           (filter (subscription_filter path1 prio1) listeners)
         ++ map Entry.listener
              (filter (subscription_filter path2 prio2) listeners)
    /\ formattings h' <= 2.
Proof.
  unfold bind. rewrite T_runs, T_runs, <- app_assoc.
  eexists. split; [reflexivity|].
  rewrite listener_calls_app, formattings_app.
  rewrite !listener_calls_emission, !formattings_emission.
  split.
  - f_equal; f_equal; apply filter_ext; intros c;
      apply passes_subscription_filter.
  - destruct (filter (passes path1 prio1) listeners);
      destruct (filter (passes path2 prio2) listeners); lia.
Qed.

(** X9: the empty emitted path is not refused: such an emission calls the
    entries subscribed to the empty path whose minimum priority it
    reaches, and no other entry. *)
Theorem empty_path_reaches_empty_subscriptions `{Clock}
    (listeners : Registry) (prio : Priority) (format : string)
    (args : list Arg) (h : History) :
  exists h' : History,
    T listeners "" prio format args h = Returns tt (h ++ h')
    /\ listener_calls h'
       = map Entry.listener
           (filter (fun c => (prio >=? Entry.prio c)%Z
                             && String.eqb (Entry.path c) "")
              listeners).
Proof.
  eexists. split; [apply T_runs|].
  rewrite listener_calls_emission. f_equal.
  apply filter_ext. intros c.
  rewrite passes_subscription_filter. unfold subscription_filter.
  rewrite path_filter_empty_path. reflexivity.
Qed.

(** X10: on a registry without subscription to the empty path, an emission
    calls the entries for which the priority is at least the entry's and
    the emitted path is the subscribed path or starts with the subscribed
    path and a slash, and no other entry. *)
Theorem T_invokes_stated_subset `{Clock} (listeners : Registry)
    (path : string) (prio : Priority) (format : string) (args : list Arg)
    (h : History) :
  Forall (fun c => Entry.path c <> "") listeners ->
  exists h' : History,
    T listeners path prio format args h = Returns tt (h ++ h')
    /\ listener_calls h'
       = map Entry.listener (filter (stated_filter path prio) listeners).
Proof.
  intros Hne. eexists. split; [apply T_runs|].
  rewrite listener_calls_emission. f_equal.
  apply filter_ext_in. intros c Hc.
  rewrite passes_subscription_filter.
  unfold subscription_filter, stated_filter, path_filter.
  rewrite Forall_forall in Hne.
  rewrite (proj2 (String.eqb_neq _ _) (Hne c Hc)). reflexivity.
Qed.

Lemma T_invokes_stated_subset_witness :
  exists h' : @History demo,
    @T demo demo_clock
       [demo_entry "net" PrioInfo "A"; demo_entry "db" PrioAll "D";
        demo_entry "net/http" PrioDebug "B"]
       "net/http" PrioInfo "x" [] []
    = Returns tt ([] ++ h')
    /\ listener_calls h' = ["A"; "B"].
Proof.
  apply (@T_invokes_stated_subset demo demo_clock
           [demo_entry "net" PrioInfo "A"; demo_entry "db" PrioAll "D";
            demo_entry "net/http" PrioDebug "B"]
           "net/http" PrioInfo "x" [] []).
  repeat constructor; discriminate.
Defined.

(** X11: a non-empty subscribed path which the emitted path continues with
    another character than the slash does not select the emission: when
    this holds of every entry, the emission leaves the history as it
    was. *)
Theorem continued_name_not_called `{Clock} (listeners : Registry)
    (path : string) (prio : Priority) (format : string) (args : list Arg)
    (h : History) :
  Forall (fun c => Entry.path c <> ""
                   /\ exists (ch : ascii) (rest : string),
                        ch <> "/"%char
                        /\ path = (Entry.path c ++ String ch rest)%string)
    listeners ->
  T listeners path prio format args h = Returns tt h.
Proof.
  intros Hcont. apply nothing_selected.
  eapply Forall_impl; [|exact Hcont]. simpl.
  intros c (Hne & ch & rest & Hch & ->).
  unfold subscription_filter.
  rewrite (path_filter_no_boundary _ _ _ Hne Hch). apply andb_false_r.
Qed.

Lemma continued_name_not_called_witness :
  @T demo demo_clock
     [demo_entry "foo" PrioAll "A"; demo_entry "foob" PrioAll "B"]
     "foobar" PrioCritical "x" [] []
  = Returns tt [].
Proof.
  apply (@continued_name_not_called demo demo_clock
           [demo_entry "foo" PrioAll "A"; demo_entry "foob" PrioAll "B"]
           "foobar" PrioCritical "x" [] []).
  constructor; [|constructor; [|constructor]].
  - split; [discriminate|].
    exists "b"%char, "ar". split; [discriminate|reflexivity].
  - split; [discriminate|].
    exists "a"%char, "r". split; [discriminate|reflexivity].
Defined.

(** X12: an emission on a path under a subscribed path, that is the
    subscribed path, a slash and anything, calls the entry when it reaches
    the entry's minimum priority. *)
Theorem subpath_is_delivered `{Clock} (listeners : Registry) (c : Entry.t)
    (rest : string) (prio : Priority) (format : string) (args : list Arg)
    (h : History) :
  In c listeners ->
  (prio >= Entry.prio c)%Z ->
  exists h' : History,
    T listeners (Entry.path c ++ "/" ++ rest)%string prio format args h
    = Returns tt (h ++ h')
    /\ In (EvListener (Entry.listener c) (clock h)
             (Entry.path c ++ "/" ++ rest)%string prio
             (Sprintf format args)) h'.
Proof.
  intros Hin Hprio.
  eexists. split; [apply T_runs|].
  apply selected_entry_called; [exact Hin|].
  unfold subscription_filter. rewrite path_filter_subpath, andb_true_r.
  apply Z.geb_le. lia.
Qed.

Lemma subpath_is_delivered_witness :
  exists h' : @History demo,
    @T demo demo_clock demo_registry "net/http/client" PrioInfo "x" [] []
    = Returns tt ([] ++ h')
    /\ In (@EvListener demo "A" 1 "net/http/client" PrioInfo "x") h'.
Proof.
  apply (@subpath_is_delivered demo demo_clock demo_registry
           (demo_entry "net" PrioInfo "A") "http/client" PrioInfo "x" [] []).
  - left. reflexivity.
  - unfold PrioInfo. simpl. lia.
Defined.

(** ** Stacks *)

Section Walks.

Lemma until_startup_stops (mid : list Frame) (s : Frame)
    (rest : list Frame) :
  Forall (fun f => is_startup f = false) mid ->
  is_startup s = true ->
  until_startup (mid ++ s :: rest) = map location mid.
Proof.
  intros Hmid Hs. induction Hmid as [|f mid Hf _ IH]; simpl.
  - rewrite Hs. reflexivity.
  - rewrite Hf, IH. reflexivity.
Qed.

Lemma until_startup_exhausts (mid : list Frame) :
  Forall (fun f => is_startup f = false) mid ->
  until_startup mid = map location mid.
Proof.
  intros Hmid. induction Hmid as [|f mid Hf _ IH]; simpl; [reflexivity|].
  rewrite Hf, IH. reflexivity.
Qed.

Lemma until_startup_frames (fs : list Frame) :
  List.length (until_startup fs) <= List.length fs
  /\ Forall (fun s => exists f : Frame,
                 In f fs /\ is_startup f = false /\ s = location f)
       (until_startup fs).
Proof.
  induction fs as [|f fs [IHlen IHall]]; simpl.
  - split; [lia|constructor].
  - destruct (is_startup f) eqn:Hf; simpl.
    + split; [lia|constructor].
    + split; [lia|]. constructor.
      * exists f. repeat split; [left; reflexivity|exact Hf].
      * eapply Forall_impl; [|exact IHall]. simpl.
        intros s (g & Hg & Hgs & Hs). exists g.
        repeat split; [right; exact Hg|exact Hgs|exact Hs].
Qed.

Lemma after_entry_point_frames (fs : list Frame) :
  List.length (after_entry_point fs) <= List.length fs - 1
  /\ Forall (fun s => exists f : Frame,
                 In f fs /\ is_startup f = false /\ s = location f)
       (after_entry_point fs).
Proof.
  induction fs as [|f fs [IHlen IHall]]; simpl.
  - split; [lia|constructor].
  - destruct (is_entry_point f).
    + destruct (until_startup_frames fs) as [Hlen Hall].
      split; [lia|].
      eapply Forall_impl; [|exact Hall]. simpl.
      intros s (g & Hg & Hgs & Hs). exists g.
      repeat split; [right; exact Hg|exact Hgs|exact Hs].
    + split; [lia|].
      eapply Forall_impl; [|exact IHall]. simpl.
      intros s (g & Hg & Hgs & Hs). exists g.
      repeat split; [right; exact Hg|exact Hgs|exact Hs].
Qed.

End Walks.

(** X13: when a startup frame follows the first entry-point frame,
    [Callers] returns the locations of the frames between the two, and of
    no other frame: neither the entry point nor the startup code, nor
    what lies beyond them. *)
Theorem Callers_between_entry_point_and_startup (stack : Stack)
    (pre : list Frame) (t : Frame) (mid : list Frame) (s : Frame)
    (rest : list Frame) :
  walked stack = pre ++ t :: mid ++ s :: rest ->
  Forall (fun f => is_entry_point f = false) pre ->
  is_entry_point t = true ->
  Forall (fun f => is_startup f = false) mid ->
  is_startup s = true ->
  Callers stack = map location mid.
Proof.
  intros Hwalked Hpre Ht Hmid Hs.
  rewrite Callers_walk, Hwalked, (after_entry_point_found _ _ _ Hpre Ht).
  apply until_startup_stops; assumption.
Qed.

Lemma Callers_between_entry_point_and_startup_witness :
  Callers
    [frame "/go/src/github.com/seehuhn/trace/callers.go" 20;
     frame "/home/user/app/log.go" 7;
     frame "/home/user/app/listener.go" 12;
     frame "/go/src/github.com/seehuhn/trace/trace.go" 121;
     frame "/home/user/app/server.go" 44;
     frame "/home/user/app/main.go" 30;
     frame "/usr/local/go/src/pkg/runtime/proc.c" 182;
     frame "/usr/local/go/src/pkg/runtime/proc.c" 1223]
  = ["/home/user/app/server.go:44"; "/home/user/app/main.go:30"].
Proof.
  apply (Callers_between_entry_point_and_startup _
           [frame "/home/user/app/listener.go" 12]
           (frame "/go/src/github.com/seehuhn/trace/trace.go" 121)
           [frame "/home/user/app/server.go" 44;
            frame "/home/user/app/main.go" 30]
           (frame "/usr/local/go/src/pkg/runtime/proc.c" 182)
           [frame "/usr/local/go/src/pkg/runtime/proc.c" 1223]).
  - reflexivity.
  - repeat constructor.
  - reflexivity.
  - repeat constructor.
  - reflexivity.
Defined.

(** X14: when no startup frame follows the first entry-point frame,
    [Callers] returns the locations of all the frames after it, down to
    the outermost frame of the stack. *)
Theorem Callers_to_end_of_stack (stack : Stack) (pre : list Frame)
    (t : Frame) (mid : list Frame) :
  walked stack = pre ++ t :: mid ->
  Forall (fun f => is_entry_point f = false) pre ->
  is_entry_point t = true ->
  Forall (fun f => is_startup f = false) mid ->
  Callers stack = map location mid.
Proof.
  intros Hwalked Hpre Ht Hmid.
  rewrite Callers_walk, Hwalked, (after_entry_point_found _ _ _ Hpre Ht).
  apply until_startup_exhausts, Hmid.
Qed.

Lemma Callers_to_end_of_stack_witness :
  Callers
    [frame "/go/src/github.com/seehuhn/trace/callers.go" 20;
     frame "/home/user/app/listener.go" 12;
     frame "/go/src/github.com/seehuhn/trace/trace.go" 121;
     frame "/home/user/app/main.go" 30;
     frame "/usr/local/go/src/runtime/proc.go" 250;
     frame "/usr/local/go/src/runtime/asm_amd64.s" 1594]
  = ["/home/user/app/main.go:30"; "/usr/local/go/src/runtime/proc.go:250";
     "/usr/local/go/src/runtime/asm_amd64.s:1594"].
Proof.
  apply (Callers_to_end_of_stack _ []
           (frame "/go/src/github.com/seehuhn/trace/trace.go" 121)
           [frame "/home/user/app/main.go" 30;
            frame "/usr/local/go/src/runtime/proc.go" 250;
            frame "/usr/local/go/src/runtime/asm_amd64.s" 1594]).
  - reflexivity.
  - constructor.
  - reflexivity.
  - repeat constructor.
Defined.

(** X15: [Callers] returns at most as many strings as the stack has frames
    beyond its own, its caller's and one of the entry point, and every
    string is the location of a walked frame which is not one of the
    startup code. *)
Theorem Callers_bounded (stack : Stack) :
  List.length (Callers stack) <= List.length stack - 3
  /\ Forall (fun s => exists f : Frame,
                 In f (walked stack) /\ is_startup f = false
                 /\ s = location f)
       (Callers stack).
Proof.
  rewrite Callers_walk.
  destruct (after_entry_point_frames (walked stack)) as [Hlen Hall].
  split; [|exact Hall].
  assert (Hw : List.length (walked stack) = List.length stack - 2)
    by apply length_skipn.
  lia.
Qed.
